(** * Verification model of generate_stl_previews.py

    A shallow embedding of the STL preview generator: the three rendering
    strategies with their [try ... except Exception] handlers, the
    [generate_preview] cascade with its counters, the batch loop of [main],
    the destination-path computation, the wireframe projection and drawing
    commands, and the decorative lines of the bounding-box fallback.

    External collaborators (trimesh, matplotlib, PIL, the file system) are
    abstracted: a strategy body is a list of steps, each of which completes,
    creates the destination image, or raises a Python exception object.
    Rendering arithmetic is modelled over the rationals [Q]. *)

From Stdlib Require Import List Bool Arith Lia String Ascii ZArith QArith Qminmax Lqa.
Import ListNotations.
Open Scope list_scope.
Open Scope nat_scope.

(** ** Python exceptions *)

Module Py.

(** A raised object: its class name, and whether the class derives from
    [Exception] (false for [KeyboardInterrupt], [SystemExit],
    [GeneratorExit], which derive from [BaseException] only). *)
Record exn := mk_exn { exn_name : string; exn_is_Exception : bool }.

Definition KeyboardInterrupt : exn := mk_exn "KeyboardInterrupt" false.
Definition SystemExit : exn := mk_exn "SystemExit" false.
Definition ValueError : exn := mk_exn "ValueError" true.
Definition IndexError : exn := mk_exn "IndexError" true.

End Py.

Import Py.

(** ** The generator's state and a state/exception monad *)

Module Pipeline.

Inductive strategy := SurfaceRender | WireframeRender | BoundingBoxRender.

Definition strategy_eqb (a b : strategy) : bool :=
  match a, b with
  | SurfaceRender, SurfaceRender
  | WireframeRender, WireframeRender
  | BoundingBoxRender, BoundingBoxRender => true
  | _, _ => false
  end.

(** What a strategy call did: returned a bool, or let an exception out. *)
Inductive result := Ret (b : bool) | Raise (e : exn).

(** One observable step of a strategy body between [try:] and [return True]:
    it completes, it creates the image at the destination ([savefig] /
    [img.save]), or it raises. Loading the mesh is the first step after the
    opening [log_info]. *)
Inductive step := SOk | SWrite | SRaise (e : exn).

(** What the environment makes a strategy do on one (stl_path, output_path):
    its steps, and the outcome of the handler's own
    [log_info(f"... failed: {str(e)}")] (None: it completes). *)
Record strat_env := mk_env {
  se_steps : list step;
  se_log_raises : option exn
}.

(** [self.success_count], [self.failure_count], [self.skipped_count], plus
    the observable world: existing files, the image writes performed and
    the strategy calls made (strategy, stl_path, outcome), in order. *)
Record gen_state := mk_state {
  success_count : nat;
  failure_count : nat;
  skipped_count : nat;
  fs : list string;
  writes : list string;
  calls : list (strategy * string * result)
}.

Definition init_state (existing : list string) : gen_state :=
  mk_state 0 0 0 existing [] [].

Definition M (A : Type) := gen_state -> (exn + A) * gen_state.

Definition ret {A} (a : A) : M A := fun st => (inr a, st).
Definition raise {A} (e : exn) : M A := fun st => (inl e, st).
Definition bind {A B} (m : M A) (k : A -> M B) : M B :=
  fun st => match m st with
            | (inl e, st') => (inl e, st')
            | (inr a, st') => k a st'
            end.

Notation "x <- m ;; k" := (bind m (fun x => k))
  (at level 61, m at next level, right associativity).

Definition modify (f : gen_state -> gen_state) : M unit :=
  fun st => (inr tt, f st).

Definition path_exists (p : string) (st : gen_state) : bool :=
  existsb (String.eqb p) (fs st).

(** Creating the destination file (overwriting it if a previous strategy
    left one). *)
Definition write_file (p : string) (st : gen_state) : gen_state :=
  mk_state (success_count st) (failure_count st) (skipped_count st)
    (if path_exists p st then fs st else fs st ++ [p])
    (writes st ++ [p]) (calls st).

Definition record_call (s : strategy) (stl : string) (r : result)
    (st : gen_state) : gen_state :=
  mk_state (success_count st) (failure_count st) (skipped_count st)
    (fs st) (writes st) (calls st ++ [(s, stl, r)]).

Definition incr_success (st : gen_state) : gen_state :=
  mk_state (S (success_count st)) (failure_count st) (skipped_count st)
    (fs st) (writes st) (calls st).
Definition incr_failure (st : gen_state) : gen_state :=
  mk_state (success_count st) (S (failure_count st)) (skipped_count st)
    (fs st) (writes st) (calls st).
Definition incr_skipped (st : gen_state) : gen_state :=
  mk_state (success_count st) (failure_count st) (S (skipped_count st))
    (fs st) (writes st) (calls st).

(** The body of the [try:] block. *)
Fixpoint run_steps (out : string) (ss : list step) : M unit :=
  match ss with
  | [] => ret tt
  | SOk :: ss' => run_steps out ss'
  | SWrite :: ss' => _ <- modify (write_file out) ;; run_steps out ss'
  | SRaise e :: ss' => raise e
  end.

(** [try: <steps>; return True
     except Exception as e: log_info(...); return False] *)
Definition try_except_Exception (out : string) (env : strat_env) : M bool :=
  fun st =>
    match run_steps out (se_steps env) st with
    | (inr _, st') => (inr true, st')
    | (inl e, st') =>
        if exn_is_Exception e then
          match se_log_raises env with
          | None => (inr false, st')
          | Some e' => (inl e', st')
          end
        else (inl e, st')
    end.

(** The environment: what each strategy does on each (stl_path, output_path). *)
Definition oracle := strategy -> string -> string -> strat_env.

Section Generator.

Variable env : oracle.

(** A call [self.generate_preview_xxx(stl_path, output_path)], recorded. *)
Definition call_strategy (s : strategy) (stl out : string) : M bool :=
  fun st =>
    match try_except_Exception out (env s stl out) st with
    | (inr b, st') => (inr b, record_call s stl (Ret b) st')
    | (inl e, st') => (inl e, record_call s stl (Raise e) st')
    end.

(** [STLPreviewGenerator.generate_preview]; the [log_info] lines around the
    cascade only print and are not modelled. *)
Definition generate_preview (stl out : string) : M unit :=
  fun st =>
    if path_exists out st then (inr tt, incr_skipped st)
    else
      (success <-
         (r1 <- call_strategy SurfaceRender stl out ;;
          if r1 then ret true else
          r2 <- call_strategy WireframeRender stl out ;;
          if r2 then ret true else
          r3 <- call_strategy BoundingBoxRender stl out ;;
          if r3 then ret true else ret false) ;;
       if success then modify incr_success else modify incr_failure) st.

End Generator.

End Pipeline.

(** ** Path helpers ([os.path], [str.lower], [str.endswith]) *)

Module Paths.

Definition slash : ascii := "/"%char.
Definition dot : ascii := "."%char.

(** Characters after the last ['/']: [p[p.rfind('/')+1:]]. *)
Fixpoint after_last_slash (l acc : list ascii) : list ascii :=
  match l with
  | [] => rev acc
  | c :: l' =>
      if Ascii.eqb c slash then after_last_slash l' []
      else after_last_slash l' (c :: acc)
  end.

(** [os.path.basename] *)
Definition basename (p : string) : string :=
  string_of_list_ascii (after_last_slash (list_ascii_of_string p) []).

(** [p.rfind(c)] as an option. *)
Fixpoint rfind_from (c : ascii) (l : list ascii) (i : nat) (best : option nat)
    : option nat :=
  match l with
  | [] => best
  | x :: l' => rfind_from c l' (S i) (if Ascii.eqb x c then Some i else best)
  end.

Definition rfind (c : ascii) (l : list ascii) : option nat := rfind_from c l 0 None.

(** [genericpath._splitext] with sep ['/'], no altsep, extsep ['.']:
    split at the last dot after the last slash, unless only dots precede it
    in the file name (leading dots do not start an extension). *)
Definition splitext (p : string) : string * string :=
  let l := list_ascii_of_string p in
  let sep_index := match rfind slash l with Some i => Z.of_nat i | None => (-1)%Z end in
  match rfind dot l with
  | Some d =>
      if (sep_index <? Z.of_nat d)%Z then
        let name := skipn (Z.to_nat (sep_index + 1)) (firstn d l) in
        if existsb (fun c => negb (Ascii.eqb c dot)) name
        then (string_of_list_ascii (firstn d l), string_of_list_ascii (skipn d l))
        else (p, EmptyString)
      else (p, EmptyString)
  | None => (p, EmptyString)
  end.

(** [os.path.join(a, b)] for two components (posixpath). *)
Definition join (a b : string) : string :=
  match list_ascii_of_string b with
  | c :: _ => if Ascii.eqb c slash then b
              else match rev (list_ascii_of_string a) with
                   | [] => b
                   | c' :: _ => if Ascii.eqb c' slash then a ++ b else a ++ "/" ++ b
                   end
  | [] => match rev (list_ascii_of_string a) with
          | [] => b
          | c' :: _ => if Ascii.eqb c' slash then a ++ b else a ++ "/" ++ b
          end
  end.

(** ASCII [str.lower] *)
Definition lower_char (c : ascii) : ascii :=
  let n := nat_of_ascii c in
  if (65 <=? n) && (n <=? 90) then ascii_of_nat (n + 32) else c.

Definition lower (s : string) : string :=
  string_of_list_ascii (map lower_char (list_ascii_of_string s)).

(** [s.endswith(suf)] *)
Definition endswith (s suf : string) : bool :=
  let ls := list_ascii_of_string s in
  let lf := list_ascii_of_string suf in
  (List.length lf <=? List.length ls) &&
  String.eqb (string_of_list_ascii (skipn (List.length ls - List.length lf) ls)) suf.

(** [base_name = os.path.splitext(os.path.basename(stl_path))[0]]
    [output_path = os.path.join(output_dir, f"{base_name}.png")] *)
Definition output_path_for (output_dir stl_path : string) : string :=
  join output_dir (fst (splitext (basename stl_path)) ++ ".png").

(** [find_stl_files]: the [os.walk] listing is given as (root, file) pairs in
    walk order. *)
Definition find_stl_files (walk : list (string * string)) : list string :=
  map (fun rf => join (fst rf) (snd rf))
      (filter (fun rf => endswith (lower (snd rf)) ".stl") walk).

End Paths.

(** ** The batch loop and exit status of [main] *)

Module Batch.

Import Pipeline.

Section Main.

Variable env : oracle.

(** [for stl_path in stl_files: ... generator.generate_preview(...)] *)
Fixpoint process_files (output_dir : string) (files : list string) : M unit :=
  match files with
  | [] => ret tt
  | stl :: rest =>
      _ <- generate_preview env stl (Paths.output_path_for output_dir stl) ;;
      process_files output_dir rest
  end.

(** How the process ends: an exit status, or an exception nobody caught. *)
Inductive exit_result := Exit (code : nat) | Uncaught (e : exn).

(** [main(input_dir, output_dir)]; [existing] are the files present before
    the run. Returns the process end and the generator's final state, if the
    generator was created. [os.makedirs], the progress bar and the summary
    log lines are not modelled; a normal return is exit status 0 and
    [sys.exit(1)] is exit status 1. *)
Definition main (walk : list (string * string)) (output_dir : string)
    (existing : list string) : exit_result * option gen_state :=
  let stl_files := Paths.find_stl_files walk in
  match stl_files with
  | [] => (Exit 0, None)
  | _ =>
      match process_files output_dir stl_files (init_state existing) with
      | (inl e, st) => (Uncaught e, Some st)
      | (inr _, st) =>
          if 0 <? failure_count st then (Exit 1, Some st) else (Exit 0, Some st)
      end
  end.

End Main.

End Batch.

(** ** WireframeRender geometry *)

Module Wireframe.

Local Open Scope Q_scope.

Definition vec3 := (Q * Q * Q)%type.
Definition pt2 := (Q * Q)%type.

(** [proj_matrix = np.array([[1, 0, 0.5], [0, 1, 0.5]])] *)
Definition proj_row0 : vec3 := (1, 0, 1#2).
Definition proj_row1 : vec3 := (0, 1, 1#2).

(** One entry of [np.dot(vertices, proj_matrix.T)]: a row of [vertices]
    times a row of [proj_matrix], summed left to right. *)
Definition dot3 (v w : vec3) : Q :=
  let '(x, y, z) := v in
  let '(a, b, c) := w in
  x * a + y * b + z * c.

Definition project_vertex (v : vec3) : pt2 := (dot3 v proj_row0, dot3 v proj_row1).

(** [vertices_2d = np.dot(vertices, proj_matrix.T)] *)
Definition project_all (vertices : list vec3) : list pt2 := map project_vertex vertices.

(** The projection as the spec states it. *)
Definition spec_project (v : vec3) : pt2 :=
  let '(x, y, z) := v in (x + (1#2) * z, y + (1#2) * z).

Definition face := (nat * nat * nat)%type.

(** [vertices_2d[face]]: fancy indexing, [IndexError] (here [None]) when an
    index is out of range. *)
Definition triangle (v2 : list pt2) (f : face) : option (list pt2) :=
  let '(a, b, c) := f in
  match nth_error v2 a, nth_error v2 b, nth_error v2 c with
  | Some pa, Some pb, Some pc => Some [pa; pb; pc]
  | _, _, _ => None
  end.

(** Drawing commands issued on the axes. *)
Inductive cmd :=
  | Plot (pts : list pt2)      (* ax.plot(xs, ys, 'steelblue', ...) *)
  | Polygon (pts : list pt2).  (* ax.add_patch(patches.Polygon(...)) *)

(** [l[::step]] for a positive step. *)
Fixpoint slice_step_from (step c : nat) (l : list face) : list face :=
  match l with
  | [] => []
  | x :: l' =>
      match c with
      | O => x :: slice_step_from step (Nat.pred step) l'
      | S c' => slice_step_from step c' l'
      end
  end.

Definition slice_step (step : nat) (l : list face) : list face :=
  slice_step_from step 0 l.

Fixpoint map_option {A B} (f : A -> option B) (l : list A) : option (list B) :=
  match l with
  | [] => Some []
  | x :: l' =>
      match f x, map_option f l' with
      | Some y, Some ys => Some (y :: ys)
      | _, _ => None
      end
  end.

(** [triangle_closed = np.vstack([triangle, triangle[0]])] *)
Definition close_loop (t : list pt2) : list pt2 :=
  match t with
  | [] => []
  | p :: _ => t ++ [p]
  end.

(** The two drawing loops of [generate_preview_wireframe]. *)
Definition wireframe_cmds (vertices : list vec3) (faces : list face)
    : option (list cmd) :=
  let v2 := project_all vertices in
  match map_option (fun f => option_map (fun t => Plot (close_loop t)) (triangle v2 f)) faces,
        map_option (fun f => option_map Polygon (triangle v2 f)) (slice_step 5 faces) with
  | Some outlines, Some fills => Some (outlines ++ fills)
  | _, _ => None
  end.

Definition face_in_range (n : nat) (f : face) : bool :=
  let '(a, b, c) := f in (a <? n)%nat && (b <? n)%nat && (c <? n)%nat.

End Wireframe.

(** ** BoundingBoxRender decorations *)

Module BBox.

Local Open Scope Z_scope.

Record line := mk_line { lx0 : Z; ly0 : Z; lx1 : Z; ly1 : Z }.

Definition margin : Z := 50.

(** [box_coords = [margin, margin, W-margin, H-margin]] *)
Definition box_coords (W H : Z) : list Z := [margin; margin; W - margin; H - margin].

(** The two [draw.line] calls of one iteration of [for offset in range(30)]
    (their [fill] colour is not modelled). *)
Definition effect_lines (W : Z) (offset : Z) : list line :=
  [mk_line (margin + offset) (margin - offset) (margin + offset + 1) (margin - offset);
   mk_line (W - margin + offset) (margin - offset) (W - margin + offset + 1) (margin - offset)].

(** All gradient segments of the "3D effect", in drawing order;
    [W] is [self.image_size[0]]. *)
Definition gradient_lines (W : Z) : list line :=
  flat_map (fun o => effect_lines W (Z.of_nat o)) (seq 0 30).

(** The segment at a given offset from the top-left corner [(margin, margin)]
    and from the top-right corner [(W-margin, margin)] of the rectangle. *)
Definition top_left_segment (o : Z) : line :=
  mk_line (margin + o) (margin - o) (margin + o + 1) (margin - o).
Definition top_right_segment (W o : Z) : line :=
  mk_line (W - margin + o) (margin - o) (W - margin + o + 1) (margin - o).

End BBox.

(** ** SurfaceRender axis limits

    The equal-aspect limits that [generate_preview_matplotlib] sets after
    [plot_trisurf]: per axis, the column's [max()] and [min()] (which raise
    [ValueError] on an empty vertex array, modelled by [None]), the largest
    of the three extents halved as [max_range], the midpoint of each column,
    and the limits [(mid - max_range, mid + max_range)]. Floats are modelled
    as exact rationals. *)

Module Surface.

Import Wireframe.
Local Open Scope Q_scope.




End Surface.

(** ** Sample environments *)

Module Samples.

Import Pipeline.

(** Every strategy loads, draws and saves the image. *)
Definition env_ok : oracle := fun _ _ _ => mk_env [SOk; SOk; SWrite] None.

(** The mesh does not load for SurfaceRender ([ValueError]); the two
    fallbacks draw and save. *)
Definition env_fallback : oracle := fun s _ _ =>
  match s with
  | SurfaceRender => mk_env [SOk; SRaise ValueError] None
  | _ => mk_env [SOk; SOk; SWrite] None
  end.

(** Every strategy fails to load the mesh. *)
Definition env_fail : oracle := fun _ _ _ => mk_env [SOk; SRaise ValueError] None.

(** The user presses Ctrl-C while SurfaceRender loads the mesh. *)
Definition env_interrupt : oracle := fun s _ _ =>
  match s with
  | SurfaceRender => mk_env [SOk; SRaise KeyboardInterrupt] None
  | _ => mk_env [SOk; SOk; SWrite] None
  end.

(** An [os.walk] listing with the same file name in two directories. *)
Definition walk_dup : list (string * string) :=
  [("models", "part.stl"); ("models", "README.md"); ("models/v2", "part.stl")]%string.

(** The two files of [walk_dup] found by [find_stl_files]. *)
Definition two_parts : list string := ["models/part.stl"; "models/v2/part.stl"]%string.

End Samples.

(** * Lemmas *)

Module PipelineFacts.

Import Pipeline.

Definition counters (st : gen_state) : nat * nat * nat :=
  (success_count st, failure_count st, skipped_count st).

Lemma write_file_nodup p st : NoDup (fs st) -> NoDup (fs (write_file p st)).
Proof.
  intro Hn. unfold write_file; simpl.
  destruct (path_exists p st) eqn:E; [exact Hn|].
  apply NoDup_app; [exact Hn | constructor; [intros []|constructor] |].
  intros x Hx [Hy|[]]. subst x.
  unfold path_exists in E. assert (existsb (String.eqb p) (fs st) = true) as E';
    [apply existsb_exists; exists p; split; [exact Hx|apply String.eqb_refl]|].
  congruence.
Qed.

Lemma run_steps_frame out ss : forall st r st',
  run_steps out ss st = (r, st') ->
  counters st' = counters st /\ calls st' = calls st /\ incl (fs st) (fs st') /\
  (NoDup (fs st) -> NoDup (fs st')).
Proof.
  induction ss as [|s ss IH]; intros st r st' H; simpl in H.
  - inversion H; subst. repeat split; auto using incl_refl.
  - destruct s.
    + exact (IH _ _ _ H).
    + unfold bind, modify in H. apply IH in H as (Hc & Hl & Hi & Hn).
      unfold counters in *. rewrite Hc, Hl. unfold write_file at 1 2. simpl.
      repeat split; try reflexivity.
      * intros x Hx. apply Hi. simpl.
        destruct (path_exists out st); [exact Hx|apply in_or_app; left; exact Hx].
      * intro H0. apply Hn, write_file_nodup, H0.
    + unfold raise in H. inversion H; subst. repeat split; auto using incl_refl.
Qed.

Definition result_of (r : exn + bool) : result :=
  match r with inr b => Ret b | inl e => Raise e end.

Lemma call_strategy_frame env s stl out st r st' :
  call_strategy env s stl out st = (r, st') ->
  counters st' = counters st /\
  calls st' = calls st ++ [(s, stl, result_of r)] /\ incl (fs st) (fs st') /\
  (NoDup (fs st) -> NoDup (fs st')).
Proof.
  unfold call_strategy, try_except_Exception.
  destruct (run_steps out (se_steps (env s stl out)) st) as [[e|u] st1] eqn:E;
    apply run_steps_frame in E as (Hc & Hl & Hi & Hn).
  - destruct (exn_is_Exception e); [destruct (se_log_raises (env s stl out))|];
      intro H; inversion H; subst; unfold counters in *; simpl;
      rewrite ?Hl; repeat split; auto.
  - intro H; inversion H; subst; unfold counters in *; simpl;
      rewrite ?Hl; repeat split; auto.
Qed.

(** Unfold [generate_preview] on a fresh destination and split on the
    outcome of each strategy call in turn. *)
Ltac split_cascade H :=
  unfold bind, ret, modify in H;
  repeat match type of H with
  | context [call_strategy ?env ?s ?stl ?out ?st] =>
      let Ec := fresh "Ec" in
      let Hc := fresh "Hc" in
      let Hl := fresh "Hl" in
      let Hi := fresh "Hi" in
      let Hn := fresh "Hn" in
      destruct (call_strategy env s stl out st) as [[?e|[|]] ?stx] eqn:Ec;
      destruct (call_strategy_frame _ _ _ _ _ _ _ Ec) as (Hc & Hl & Hi & Hn);
      clear Ec; cbn beta iota in H
  end;
  inversion H; subst; clear H.

(** Rewrite [calls] of the final state back to the initial one. *)
Ltac chain_calls :=
  repeat match goal with
         | H : calls ?x = _ |- context [calls ?x] => rewrite H
         end;
  rewrite <- ?app_assoc; simpl.

Lemma triple_eq (a b c d e f : nat) :
  a = d -> b = e -> c = f -> (a, b, c) = (d, e, f).
Proof. intros; subst; reflexivity. Qed.

Lemma incl_trans3 {A} (a b c : list A) : incl a b -> incl b c -> incl a c.
Proof. intros H1 H2 x Hx. apply H2, H1, Hx. Qed.

Definition le_counters (a b : gen_state) : Prop :=
  success_count a <= success_count b /\ failure_count a <= failure_count b /\
  skipped_count a <= skipped_count b.

Lemma le_counters_refl st : le_counters st st.
Proof. unfold le_counters; lia. Qed.

Lemma le_counters_trans a b c : le_counters a b -> le_counters b c -> le_counters a c.
Proof. unfold le_counters; lia. Qed.

Lemma counters_eq_le a b : counters a = counters b -> le_counters b a.
Proof. unfold counters, le_counters. intro H. inversion H. lia. Qed.

Lemma generate_preview_mono env stl out st r st' :
  generate_preview env stl out st = (r, st') -> le_counters st st'.
Proof.
  intro H. unfold generate_preview in H.
  destruct (path_exists out st).
  - inversion H; subst. unfold le_counters; simpl; lia.
  - split_cascade H;
      repeat match goal with Hc : counters _ = counters _ |- _ =>
               apply counters_eq_le in Hc end;
      unfold le_counters in *; simpl in *; lia.
Qed.

Lemma process_files_mono env od files : forall st r st',
  Batch.process_files env od files st = (r, st') -> le_counters st st'.
Proof.
  induction files as [|f files IH]; intros st r st' H; simpl in H.
  - inversion H; subst. apply le_counters_refl.
  - unfold bind at 1 in H.
    destruct (generate_preview env f (Paths.output_path_for od f) st) as [[e|[]] st1] eqn:E;
      apply generate_preview_mono in E.
    + inversion H; subst. exact E.
    + eapply le_counters_trans; [exact E | eapply IH; exact H].
Qed.

(** The first exception a strategy body raises, if any. *)
Fixpoint first_raise (ss : list step) : option exn :=
  match ss with
  | [] => None
  | SRaise e :: _ => Some e
  | _ :: ss' => first_raise ss'
  end.

Lemma run_steps_result out ss : forall st,
  fst (run_steps out ss st) =
  match first_raise ss with None => inr tt | Some e => inl e end.
Proof.
  induction ss as [|s ss IH]; intro st; simpl; [reflexivity|].
  destruct s; simpl; [apply IH | apply IH | reflexivity].
Qed.

Lemma generate_preview_fs env stl out st r st' :
  generate_preview env stl out st = (r, st') ->
  incl (fs st) (fs st') /\ (NoDup (fs st) -> NoDup (fs st')).
Proof.
  intro H. unfold generate_preview in H. destruct (path_exists out st).
  - inversion H; subst. simpl. split; [apply incl_refl | auto].
  - split_cascade H; simpl in *; split; eauto using incl_tran.
Qed.

Lemma process_files_app env od l1 l2 st :
  Batch.process_files env od (l1 ++ l2) st =
  match Batch.process_files env od l1 st with
  | (inl e, st') => (inl e, st')
  | (inr _, st') => Batch.process_files env od l2 st'
  end.
Proof.
  revert st. induction l1 as [|f l1 IH]; intro st; simpl; [reflexivity|].
  unfold bind.
  destruct (generate_preview env f (Paths.output_path_for od f) st) as [[e|[]] st1];
    [reflexivity | apply IH].
Qed.

Lemma process_files_fs env od files : forall st r st',
  Batch.process_files env od files st = (r, st') ->
  incl (fs st) (fs st') /\ (NoDup (fs st) -> NoDup (fs st')).
Proof.
  induction files as [|f files IH]; intros st r st' H; simpl in H.
  - inversion H; subst. split; [apply incl_refl | auto].
  - unfold bind at 1 in H.
    destruct (generate_preview env f (Paths.output_path_for od f) st) as [[e|[]] st1] eqn:E;
      apply generate_preview_fs in E as [Ei En].
    + inversion H; subst. auto.
    + apply IH in H as [Hi Hn]. split; eauto using incl_tran.
Qed.

Lemma path_exists_incl p a b :
  incl (fs a) (fs b) -> path_exists p a = true -> path_exists p b = true.
Proof.
  unfold path_exists. intros Hi Ha.
  apply existsb_exists in Ha as [x [Hx Hq]].
  apply existsb_exists. exists x. split; [apply Hi, Hx | exact Hq].
Qed.

End PipelineFacts.

(** * Claims *)

Module PipelineClaims.

Import Pipeline PipelineFacts.

(** C1: on a destination that does not exist yet, [generate_preview] calls
    SurfaceRender, then WireframeRender, then BoundingBoxRender, moving to the
    next one only when the previous call returned False: the calls it makes
    are [SurfaceRender], [SurfaceRender; WireframeRender] or all three, in that
    order, each at most once, and every call before the last returned False. *)
Theorem generate_preview_cascade_order env stl out st r st' :
  path_exists out st = false ->
  generate_preview env stl out st = (r, st') ->
  exists seg, calls st' = calls st ++ seg /\
    ((exists r1, seg = [(SurfaceRender, stl, r1)] /\ r1 <> Ret false) \/
     (exists r2, seg = [(SurfaceRender, stl, Ret false);
                        (WireframeRender, stl, r2)] /\ r2 <> Ret false) \/
     (exists r3, seg = [(SurfaceRender, stl, Ret false);
                        (WireframeRender, stl, Ret false);
                        (BoundingBoxRender, stl, r3)])).
Proof.
  intros E H. unfold generate_preview in H. rewrite E in H. split_cascade H;
    simpl in *; chain_calls;
    eexists; split; try reflexivity;
    first [ left; eexists; split; [reflexivity | discriminate]
          | right; left; eexists; split; [reflexivity | discriminate]
          | right; right; eexists; reflexivity ].
Qed.

(** C2: when the destination already exists, [generate_preview] records
    Skipped: the skipped counter goes up by one, and nothing else changes: no
    strategy is called (so no mesh is loaded), no file is written. *)
Theorem generate_preview_skips_existing env stl out st :
  path_exists out st = true ->
  exists st', generate_preview env stl out st = (inr tt, st') /\
    skipped_count st' = S (skipped_count st) /\
    success_count st' = success_count st /\
    failure_count st' = failure_count st /\
    calls st' = calls st /\ fs st' = fs st /\ writes st' = writes st.
Proof.
  intro E. exists (incr_skipped st). unfold generate_preview. rewrite E.
  repeat split; reflexivity.
Qed.

(** C7: a call of [generate_preview] that returns increments exactly one of
    the three counters by one; success goes up exactly when some strategy
    returned True, failure exactly when all three returned False; and no
    counter ever decreases over a run of the batch loop. *)
Theorem generate_preview_counters env stl out st st' :
  generate_preview env stl out st = (inr tt, st') ->
  (exists seg, calls st' = calls st ++ seg /\
    (counters st' = (S (success_count st), failure_count st, skipped_count st) \/
     counters st' = (success_count st, S (failure_count st), skipped_count st) \/
     counters st' = (success_count st, failure_count st, S (skipped_count st))) /\
    (success_count st' = S (success_count st) <->
       exists s, In (s, stl, Ret true) seg) /\
    (failure_count st' = S (failure_count st) <->
       seg = [(SurfaceRender, stl, Ret false); (WireframeRender, stl, Ret false);
              (BoundingBoxRender, stl, Ret false)])) /\
  (forall od files st0 r0 st0',
     Batch.process_files env od files st0 = (r0, st0') -> le_counters st0 st0').
Proof.
  intro H. split; [| intros; eapply process_files_mono; eassumption].
  unfold generate_preview in H. destruct (path_exists out st) eqn:E.
  - inversion H; subst. exists []. rewrite app_nil_r. simpl.
    split; [reflexivity|]. split; [right; right; reflexivity|].
    split; split; intro Hx; try lia.
    + destruct Hx as [s Hs]; destruct Hs.
    + discriminate.
  - split_cascade H; simpl in *; chain_calls;
      unfold counters in *; simpl in *;
      repeat match goal with Hc : (_, _, _) = (_, _, _) |- _ => inversion Hc; clear Hc end;
      eexists; (split; [reflexivity|]);
      (split; [first [ left; apply triple_eq; lia
                     | right; left; apply triple_eq; lia
                     | right; right; apply triple_eq; lia ] |]);
      split; split; intro Hx;
      first [ lia | reflexivity | discriminate
            | (eexists; simpl; first [ left; reflexivity | right; left; reflexivity
                                     | right; right; left; reflexivity ])
            | (destruct Hx as [? Hx]; simpl in Hx; intuition congruence) ].
Qed.

(** C3: a run that ends with an exit status exits with 1 exactly when the
    failure counter is positive after every file was processed, and with 0
    otherwise (whatever the skipped count); a run that finds no file exits
    with 0. *)
Theorem main_exit_status env walk od existing code ost :
  Batch.main env walk od existing = (Batch.Exit code, ost) ->
  (Paths.find_stl_files walk = [] -> code = 0 /\ ost = None) /\
  match ost with
  | None => Paths.find_stl_files walk = [] /\ code = 0
  | Some st =>
      Batch.process_files env od (Paths.find_stl_files walk) (init_state existing)
        = (inr tt, st) /\
      (code = 1 <-> 0 < failure_count st) /\ (code = 0 <-> failure_count st = 0)
  end.
Proof.
  unfold Batch.main. intro H. destruct (Paths.find_stl_files walk) as [|f fs'] eqn:Ef.
  - inversion H; subst. auto.
  - destruct (Batch.process_files env od (f :: fs') (init_state existing))
      as [[e|[]] st] eqn:Ep; [discriminate|].
    split; [discriminate|].
    destruct (0 <? failure_count st) eqn:Ec; inversion H; subst;
      first [apply Nat.ltb_lt in Ec | apply Nat.ltb_ge in Ec];
      (split; [reflexivity|]); split; split; intro; lia.
Qed.

(** C6 (as stated, refuted): a [KeyboardInterrupt] raised while
    SurfaceRender loads the mesh is not turned into False: it leaves the
    strategy. *)
Lemma strategy_lets_KeyboardInterrupt_out :
  fst (call_strategy Samples.env_interrupt SurfaceRender
         "models/part.stl" "previews/part.png" (init_state [])) = inl KeyboardInterrupt.
Proof. vm_compute. reflexivity. Qed.

(** C6 (amended): a strategy returns True exactly when its body completes
    without raising; when the body raises an instance of [Exception], the
    strategy returns False, unless logging the failure message itself
    raises; an object that is a [BaseException] but not an [Exception]
    leaves the strategy. *)
Theorem strategy_catches_Exception out envr st :
  (fst (try_except_Exception out envr st) = inr true <->
     first_raise (se_steps envr) = None) /\
  (forall e, first_raise (se_steps envr) = Some e -> exn_is_Exception e = true ->
     fst (try_except_Exception out envr st) =
       match se_log_raises envr with None => inr false | Some e' => inl e' end) /\
  (forall e, first_raise (se_steps envr) = Some e -> exn_is_Exception e = false ->
     fst (try_except_Exception out envr st) = inl e).
Proof.
  unfold try_except_Exception.
  pose proof (run_steps_result out (se_steps envr) st) as Hr.
  destruct (run_steps out (se_steps envr) st) as [[e|u] st1]; simpl in Hr;
    destruct (first_raise (se_steps envr)) as [e0|]; try discriminate;
    [inversion Hr; subst|].
  - split; [|split].
    + destruct (exn_is_Exception e0); [destruct (se_log_raises envr)|];
        simpl; split; intro Hx; discriminate.
    + intros e He Hc. inversion He; subst. rewrite Hc.
      destruct (se_log_raises envr); reflexivity.
    + intros e He Hc. inversion He; subst. rewrite Hc. reflexivity.
  - simpl. split; [split; reflexivity|]. split; intros e He; discriminate.
Qed.

(** C9: the handlers catch only [Exception]: a raised [BaseException] that
    is not an [Exception] leaves the strategy, [generate_preview] re-raises
    whatever a strategy let out, and such an exception ends [main] uncaught,
    with the state reached at that point (later files are not processed). *)
Theorem base_exception_aborts_batch env :
  (forall s stl out st e,
     first_raise (se_steps (env s stl out)) = Some e -> exn_is_Exception e = false ->
     fst (call_strategy env s stl out st) = inl e) /\
  (forall stl out st r st' seg s e,
     generate_preview env stl out st = (r, st') ->
     calls st' = calls st ++ seg -> In (s, stl, Raise e) seg -> r = inl e) /\
  (forall walk od existing pre f post st1 e st2,
     Paths.find_stl_files walk = pre ++ f :: post ->
     Batch.process_files env od pre (init_state existing) = (inr tt, st1) ->
     generate_preview env f (Paths.output_path_for od f) st1 = (inl e, st2) ->
     Batch.main env walk od existing = (Batch.Uncaught e, Some st2)).
Proof.
  split; [|split].
  - intros s stl out st e Hf Hc.
    destruct (strategy_catches_Exception out (env s stl out) st) as (_ & _ & H3).
    unfold call_strategy.
    specialize (H3 e Hf Hc).
    destruct (try_except_Exception out (env s stl out) st) as [[e'|b] st']; simpl in *;
      congruence.
  - intros stl out st r st' seg s e H Hs Hin.
    unfold generate_preview in H. destruct (path_exists out st).
    + inversion H; subst. simpl in Hs.
      rewrite <- (app_nil_r (calls st)) in Hs at 1.
      apply app_inv_head in Hs. subst seg. destruct Hin.
    + split_cascade H; simpl in *;
        repeat match goal with
               | Hq : calls ?x = _ |- _ => rewrite Hq in Hs; clear Hq
               end;
        rewrite <- ?app_assoc in Hs; simpl in Hs; apply app_inv_head in Hs; subst seg;
        simpl in Hin; intuition congruence.
  - intros walk od existing pre f post st1 e st2 Hw Hp Hg.
    unfold Batch.main. rewrite Hw.
    destruct (pre ++ f :: post) as [|g l] eqn:El;
      [destruct pre; discriminate|].
    rewrite <- El, process_files_app, Hp. simpl. unfold bind at 1. rewrite Hg.
    reflexivity.
Qed.

(** C10: destinations depend only on the base name, so two inputs with the
    same base name share one destination; once the first has produced an
    image, the second is recorded as Skipped and no strategy runs on it,
    and a run never holds two files at one path. *)
Theorem same_basename_later_skipped env od f1 f2 pre mid post st0 st1 st2 :
  Paths.basename f1 = Paths.basename f2 ->
  Batch.process_files env od (pre ++ [f1]) st0 = (inr tt, st1) ->
  path_exists (Paths.output_path_for od f1) st1 = true ->
  Batch.process_files env od mid st1 = (inr tt, st2) ->
  Paths.output_path_for od f2 = Paths.output_path_for od f1 /\
  generate_preview env f2 (Paths.output_path_for od f2) st2 = (inr tt, incr_skipped st2) /\
  Batch.process_files env od (pre ++ f1 :: mid ++ f2 :: post) st0 =
    Batch.process_files env od post (incr_skipped st2) /\
  (NoDup (fs st0) -> forall r st3,
     Batch.process_files env od (pre ++ f1 :: mid ++ f2 :: post) st0 = (r, st3) ->
     NoDup (fs st3)).
Proof.
  intros Hb H1 He H2.
  assert (Hd : Paths.output_path_for od f2 = Paths.output_path_for od f1)
    by (unfold Paths.output_path_for; rewrite Hb; reflexivity).
  assert (Hs : generate_preview env f2 (Paths.output_path_for od f2) st2 =
               (inr tt, incr_skipped st2)).
  { unfold generate_preview. rewrite Hd.
    apply process_files_fs in H2 as [Hi _].
    rewrite (path_exists_incl _ _ _ Hi He). reflexivity. }
  assert (Hrun : Batch.process_files env od (pre ++ f1 :: mid ++ f2 :: post) st0 =
                 Batch.process_files env od post (incr_skipped st2)).
  { replace (pre ++ f1 :: mid ++ f2 :: post) with ((pre ++ [f1]) ++ mid ++ f2 :: post)
      by (rewrite <- app_assoc; reflexivity).
    rewrite process_files_app, H1, process_files_app, H2. simpl.
    unfold bind at 1. rewrite Hs. reflexivity. }
  split; [exact Hd|]. split; [exact Hs|]. split; [exact Hrun|].
  intros Hn r st3 H3. rewrite Hrun in H3.
  apply process_files_fs in H3 as [_ Hn3]. apply Hn3.
  apply process_files_fs in H2 as [_ Hn2].
  apply process_files_fs in H1 as [_ Hn1]. simpl. auto.
Qed.

End PipelineClaims.

Module WireframeClaims.

Import Wireframe.
Local Open Scope Q_scope.

Lemma slice_step_from_skip step c : forall l,
  slice_step_from step c l = slice_step_from step 0 (skipn c l).
Proof.
  induction c as [|c IH]; intro l; [reflexivity|].
  destruct l as [|x l]; [reflexivity|]. simpl. apply IH.
Qed.

Lemma slice_step_nth k : forall j l,
  nth_error (slice_step (S k) l) j = nth_error l (S k * j).
Proof.
  unfold slice_step.
  induction j as [|j IH]; intro l.
  - rewrite Nat.mul_0_r. destruct l; reflexivity.
  - destruct l as [|x l]; [reflexivity|].
    change (nth_error (slice_step_from (S k) k l) j = nth_error (x :: l) (S k * S j)).
    rewrite slice_step_from_skip, IH, nth_error_skipn.
    replace (S k * S j)%nat with (S (k + S k * j))%nat by lia. reflexivity.
Qed.

Lemma map_option_cons {A B} (f : A -> option B) x l :
  map_option f (x :: l) =
  match f x, map_option f l with
  | Some y, Some ys => Some (y :: ys)
  | _, _ => None
  end.
Proof. reflexivity. Qed.

Lemma map_option_triangle {B} (g : list pt2 -> B) v2 faces :
  forallb (face_in_range (List.length v2)) faces = true ->
  map_option (fun f => option_map g (triangle v2 f)) faces =
  Some (map (fun f : face => let '(a, b, c) := f in
                 g [nth a v2 (0, 0); nth b v2 (0, 0); nth c v2 (0, 0)]) faces).
Proof.
  induction faces as [|[[a b] c] faces IH]; intro H; [reflexivity|].
  simpl in H. apply andb_prop in H as [Hf H].
  apply andb_prop in Hf as [Hab Hc]. apply andb_prop in Hab as [Ha Hb].
  apply Nat.ltb_lt in Ha, Hb, Hc.
  rewrite map_option_cons, (IH H). unfold triangle.
  rewrite (nth_error_nth' v2 (0, 0) Ha), (nth_error_nth' v2 (0, 0) Hb),
    (nth_error_nth' v2 (0, 0) Hc). reflexivity.
Qed.

Lemma forallb_slice_step_from (p : face -> bool) step : forall c l,
  forallb p l = true -> forallb p (slice_step_from step c l) = true.
Proof.
  intros c l. revert c. induction l as [|x l IH]; intros c H; [reflexivity|].
  simpl in H. apply andb_prop in H as [Hx H].
  destruct c; simpl; [rewrite Hx|]; apply IH; exact H.
Qed.

(** C4: the WireframeRender projection maps every vertex [(x, y, z)] to
    [(x + 0.5 z, y + 0.5 z)], vertex by vertex and in order, and depends on
    nothing but the vertex. *)
Theorem wireframe_projection (vs : list vec3) :
  (forall x y z, fst (project_vertex (x, y, z)) == x + (1#2) * z /\
                 snd (project_vertex (x, y, z)) == y + (1#2) * z) /\
  (forall i v, nth_error vs i = Some v ->
     nth_error (project_all vs) i = Some (project_vertex v)) /\
  List.length (project_all vs) = List.length vs /\
  (forall vs1 vs2, project_all (vs1 ++ vs2) = project_all vs1 ++ project_all vs2) /\
  (forall v, project_vertex v = project_vertex v).
Proof.
  split; [|split; [|split; [|split]]].
  - intros x y z. unfold project_vertex, dot3, proj_row0, proj_row1; simpl.
    split; ring.
  - intros i v H. unfold project_all. rewrite nth_error_map, H. reflexivity.
  - apply length_map.
  - intros vs1 vs2. apply map_app.
  - reflexivity.
Qed.

(** C5: when every face index is in range, WireframeRender issues one closed
    outline [p a; p b; p c; p a] per face, in face order, then one filled
    polygon per face of [faces[::5]]; the [j]-th filled face is face [5 j],
    so the filled faces are exactly those at indices 0, 5, 10, ... *)
Theorem wireframe_draws vertices faces :
  forallb (face_in_range (List.length vertices)) faces = true ->
  let P i := nth i (project_all vertices) (0, 0) in
  wireframe_cmds vertices faces =
    Some (map (fun f : face => let '(a, b, c) := f in Plot [P a; P b; P c; P a]) faces ++
          map (fun f : face => let '(a, b, c) := f in Polygon [P a; P b; P c])
              (slice_step 5 faces)) /\
  (forall j, nth_error (slice_step 5 faces) j = nth_error faces (5 * j)).
Proof.
  intros H P. split; [|intro j; apply (slice_step_nth 4 j faces)].
  unfold wireframe_cmds.
  assert (H' : forallb (face_in_range (List.length (project_all vertices))) faces = true)
    by (unfold project_all; rewrite length_map; exact H).
  rewrite (map_option_triangle (fun t => Plot (close_loop t)) _ _ H').
  rewrite (map_option_triangle Polygon _ _
             (forallb_slice_step_from _ 5 0 faces H' : forallb _ (slice_step 5 faces) = true)).
  reflexivity.
Qed.

End WireframeClaims.

Module BBoxClaims.

Import BBox.
Local Open Scope Z_scope.

(** C8 (as stated, refuted): on a 512x512 image the gradient also has a
    segment starting at the rectangle's top-right corner [(W-margin, margin)]. *)
Lemma gradient_at_top_right_corner :
  box_coords 512 512 = [50; 50; 462; 462] /\
  In (mk_line 462 50 463 50) (gradient_lines 512).
Proof. split; [reflexivity|]. simpl. right. left. reflexivity. Qed.

(** C8 (amended): the gradient segments are exactly, for each offset
    [o] in [0, 30), the one-pixel segment at [(margin+o, margin-o)] by the
    top-left corner and the one at [(W-margin+o, margin-o)] by the top-right
    corner; none lies below the top edge. *)
Theorem gradient_top_corners W l :
  In l (gradient_lines W) <->
  exists o, 0 <= o < 30 /\ (l = top_left_segment o \/ l = top_right_segment W o).
Proof.
  unfold gradient_lines. rewrite in_flat_map. split.
  - intros [o [Ho Hl]]. apply in_seq in Ho.
    exists (Z.of_nat o). split; [lia|].
    simpl in Hl. destruct Hl as [<-|[<-|[]]]; [left|right]; reflexivity.
  - intros [o [Ho Hl]]. exists (Z.to_nat o). split; [apply in_seq; lia|].
    rewrite Z2Nat.id by lia. simpl.
    destruct Hl as [ -> | -> ]; [left|right; left]; reflexivity.
Qed.

End BBoxClaims.

(** * Concrete runs and witnesses *)

Module Witnesses.

Import Pipeline PipelineFacts PipelineClaims Samples.

Example find_stl_files_dup :
  Paths.find_stl_files walk_dup = ["models/part.stl"; "models/v2/part.stl"]%string.
Proof. reflexivity. Qed.

Example output_path_upper_ext :
  Paths.output_path_for "previews" "models/v2/part.STL" = "previews/part.png"%string.
Proof. reflexivity. Qed.

Example splitext_leading_dot :
  Paths.splitext ".stl" = (".stl", ""%string)%string.
Proof. reflexivity. Qed.

Example main_fallback_exits_0 :
  fst (Batch.main env_fallback walk_dup "previews" []) = Batch.Exit 0.
Proof. vm_compute. reflexivity. Qed.

Lemma generate_preview_cascade_order_witness :
  path_exists "previews/part.png" (init_state []) = false /\
  exists seg,
    calls (snd (generate_preview env_fallback "models/part.stl" "previews/part.png"
                  (init_state []))) = calls (init_state []) ++ seg /\
    ((exists r1, seg = [(SurfaceRender, "models/part.stl"%string, r1)] /\ r1 <> Ret false) \/
     (exists r2, seg = [(SurfaceRender, "models/part.stl"%string, Ret false);
                        (WireframeRender, "models/part.stl"%string, r2)] /\ r2 <> Ret false) \/
     (exists r3, seg = [(SurfaceRender, "models/part.stl"%string, Ret false);
                        (WireframeRender, "models/part.stl"%string, Ret false);
                        (BoundingBoxRender, "models/part.stl"%string, r3)])).
Proof.
  split; [reflexivity|].
  apply (generate_preview_cascade_order env_fallback "models/part.stl" "previews/part.png"
           (init_state []) _ _ eq_refl (surjective_pairing _)).
Defined.

Lemma generate_preview_skips_existing_witness :
  path_exists "previews/part.png" (init_state ["previews/part.png"%string]) = true /\
  exists st', generate_preview env_ok "models/part.stl" "previews/part.png"
                (init_state ["previews/part.png"%string]) = (inr tt, st') /\
    skipped_count st' = S (skipped_count (init_state ["previews/part.png"%string])) /\
    success_count st' = success_count (init_state ["previews/part.png"%string]) /\
    failure_count st' = failure_count (init_state ["previews/part.png"%string]) /\
    calls st' = calls (init_state ["previews/part.png"%string]) /\
    fs st' = fs (init_state ["previews/part.png"%string]) /\
    writes st' = writes (init_state ["previews/part.png"%string]).
Proof.
  split; [reflexivity|].
  apply (generate_preview_skips_existing env_ok "models/part.stl" "previews/part.png"
           (init_state ["previews/part.png"%string]) eq_refl).
Defined.

Lemma generate_preview_counters_witness :
  generate_preview env_fallback "models/part.stl" "previews/part.png" (init_state []) =
    (inr tt, snd (generate_preview env_fallback "models/part.stl" "previews/part.png"
                    (init_state []))) /\
  success_count (snd (generate_preview env_fallback "models/part.stl" "previews/part.png"
                        (init_state []))) = S (success_count (init_state [])).
Proof.
  assert (H : generate_preview env_fallback "models/part.stl" "previews/part.png" (init_state []) =
    (inr tt, snd (generate_preview env_fallback "models/part.stl" "previews/part.png"
                    (init_state [])))) by (vm_compute; reflexivity).
  split; [exact H|].
  destruct (generate_preview_counters env_fallback "models/part.stl" "previews/part.png"
              (init_state []) _ H) as [[seg [Hs [_ [Hsucc _]]]] _].
  apply Hsucc. exists WireframeRender.
  assert (Hc : calls (snd (generate_preview env_fallback "models/part.stl"
                 "previews/part.png" (init_state []))) =
               [(SurfaceRender, "models/part.stl"%string, Ret false);
                (WireframeRender, "models/part.stl"%string, Ret true)])
    by (vm_compute; reflexivity).
  rewrite Hc in Hs. simpl in Hs. subst seg. right. left. reflexivity.
Defined.

Lemma main_exit_status_witness :
  let st := match snd (Batch.main env_fail walk_dup "previews" []) with
            | Some st => st | None => init_state [] end in
  Batch.main env_fail walk_dup "previews" [] = (Batch.Exit 1, Some st) /\
  0 < failure_count st.
Proof.
  intro st.
  assert (H : Batch.main env_fail walk_dup "previews" [] = (Batch.Exit 1, Some st))
    by (vm_compute; reflexivity).
  split; [exact H|].
  exact (proj1 (proj1 (proj2 (proj2 (main_exit_status env_fail walk_dup "previews" []
                                        1 (Some st) H)))) eq_refl).
Defined.

Lemma strategy_catches_Exception_witness :
  first_raise (se_steps (mk_env [SOk; SRaise ValueError] None)) = Some ValueError /\
  exn_is_Exception ValueError = true /\
  fst (try_except_Exception "previews/part.png"%string (mk_env [SOk; SRaise ValueError] None)
         (init_state [])) = inr false.
Proof.
  split; [reflexivity|]. split; [reflexivity|].
  apply (proj1 (proj2 (strategy_catches_Exception "previews/part.png"%string
           (mk_env [SOk; SRaise ValueError] None) (init_state []))) ValueError
           eq_refl eq_refl).
Defined.

Lemma base_exception_aborts_batch_witness :
  Batch.main env_interrupt walk_dup "previews" [] =
    (Batch.Uncaught KeyboardInterrupt,
     Some (snd (generate_preview env_interrupt "models/part.stl" "previews/part.png"
                  (init_state [])))).
Proof.
  apply (proj2 (proj2 (base_exception_aborts_batch env_interrupt))
           walk_dup "previews"%string [] [] "models/part.stl"%string ["models/v2/part.stl"%string]
           (init_state []) KeyboardInterrupt _ eq_refl eq_refl).
  vm_compute. reflexivity.
Defined.

Lemma same_basename_later_skipped_witness :
  Batch.process_files env_ok "previews" ["models/part.stl"%string; "models/v2/part.stl"%string]
    (init_state []) =
  Batch.process_files env_ok "previews" []
    (incr_skipped (snd (Batch.process_files env_ok "previews" ["models/part.stl"%string]
                          (init_state [])))).
Proof.
  apply (same_basename_later_skipped env_ok "previews" "models/part.stl" "models/v2/part.stl"
           [] [] [] (init_state [])
           (snd (Batch.process_files env_ok "previews" ["models/part.stl"%string] (init_state [])))
           (snd (Batch.process_files env_ok "previews" ["models/part.stl"%string] (init_state []))));
    vm_compute; reflexivity.
Defined.

Lemma wireframe_projection_witness :
  nth_error (Wireframe.project_all [(1, 2, 4)%Q]) 0 =
    Some (Wireframe.project_vertex (1, 2, 4)%Q) /\
  Qeq (fst (Wireframe.project_vertex (1, 2, 4)%Q)) (1 + (1#2) * 4) /\
  Qeq (snd (Wireframe.project_vertex (1, 2, 4)%Q)) (2 + (1#2) * 4).
Proof.
  destruct (WireframeClaims.wireframe_projection [(1, 2, 4)%Q]) as (Hp & Hn & _).
  split; [exact (Hn 0 (1, 2, 4)%Q eq_refl)|]. exact (Hp 1 2 4)%Q.
Defined.

(** The spec's scenario: one face on a unit right triangle in the plane
    [z = 0]. *)
Lemma wireframe_draws_witness :
  forallb (Wireframe.face_in_range 3) [(0, 1, 2)] = true /\
  let V := [(0, 0, 0); (1, 0, 0); (0, 1, 0)]%Q in
  let P i := nth i (Wireframe.project_all V) (0, 0)%Q in
  Wireframe.wireframe_cmds V [(0, 1, 2)] =
    Some [Wireframe.Plot [P 0; P 1; P 2; P 0]; Wireframe.Polygon [P 0; P 1; P 2]].
Proof.
  split; [reflexivity|]. intros V P.
  exact (proj1 (WireframeClaims.wireframe_draws V [(0, 1, 2)] eq_refl)).
Defined.

End Witnesses.

(** * Further properties of the batch loop *)

Module BatchFacts.

Import Pipeline PipelineFacts.

Definition total (st : gen_state) : nat :=
  success_count st + failure_count st + skipped_count st.




Lemma generate_preview_total env stl out st st' :
  generate_preview env stl out st = (inr tt, st') -> total st' = S (total st).
Proof.
  intro H. unfold generate_preview in H. destruct (path_exists out st).
  - inversion H; subst. unfold total; simpl; lia.
  - split_cascade H; unfold counters, total in *; simpl in *;
      repeat match goal with Hc : (_, _, _) = (_, _, _) |- _ => inversion Hc; clear Hc end;
      lia.
Qed.



End BatchFacts.

Module BatchClaims.

Import Pipeline PipelineFacts BatchFacts.

(** A run of the batch loop that completes increments the three counters by
    exactly the number of files processed, in total. *)
Theorem process_files_total env od files : forall st st',
  Batch.process_files env od files st = (inr tt, st') ->
  total st' = total st + List.length files.
Proof.
  induction files as [|f files IH]; intros st st' H; simpl in H.
  - inversion H; subst. simpl. lia.
  - unfold bind at 1 in H.
    destruct (generate_preview env f (Paths.output_path_for od f) st) as [[e|[]] st1] eqn:E;
      [discriminate|].
    apply IH in H. apply generate_preview_total in E. simpl. lia.
Qed.


(** A run over files whose destinations all exist already (for instance a
    second run after every file produced an image) records every file as
    Skipped and makes no strategy call and no write. *)
Theorem process_files_rerun_skips env od files : forall st,
  (forall f, In f files -> path_exists (Paths.output_path_for od f) st = true) ->
  exists st', Batch.process_files env od files st = (inr tt, st') /\
    skipped_count st' = skipped_count st + List.length files /\
    success_count st' = success_count st /\ failure_count st' = failure_count st /\
    calls st' = calls st /\ writes st' = writes st /\ fs st' = fs st.
Proof.
  induction files as [|f files IH]; intros st Hall.
  - exists st. simpl. repeat split; lia.
  - simpl. unfold bind at 1. unfold generate_preview at 1.
    rewrite (Hall f (or_introl eq_refl)).
    destruct (IH (incr_skipped st)) as [st' (Hr & Hk & Hs & Hf & Hc & Hw & Hfs)].
    { intros g Hg. apply (Hall g (or_intror Hg)). }
    exists st'. rewrite Hr. simpl in *. repeat split; try lia; assumption.
Qed.

End BatchClaims.

(** * Further properties of the path helpers *)

Module PathFacts.

Import Paths.

Lemma list_ascii_of_string_app (a b : string) :
  list_ascii_of_string (a ++ b) = list_ascii_of_string a ++ list_ascii_of_string b.
Proof. induction a as [|c a IH]; simpl; [reflexivity|]. rewrite IH. reflexivity. Qed.

Lemma string_of_list_ascii_app (l1 l2 : list ascii) :
  string_of_list_ascii (l1 ++ l2) = (string_of_list_ascii l1 ++ string_of_list_ascii l2)%string.
Proof. induction l1 as [|c l1 IH]; simpl; [reflexivity|]. rewrite IH. reflexivity. Qed.

Lemma string_ext (a b : string) : list_ascii_of_string a = list_ascii_of_string b -> a = b.
Proof.
  intro H. rewrite <- (string_of_list_ascii_of_string a), <- (string_of_list_ascii_of_string b).
  rewrite H. reflexivity.
Qed.

Lemma after_last_slash_noslash l : forall acc,
  ~ In slash l -> after_last_slash l acc = rev acc ++ l.
Proof.
  induction l as [|c l IH]; intros acc Hn; simpl; [symmetry; apply app_nil_r|].
  destruct (Ascii.eqb c slash) eqn:E.
  - apply Ascii.eqb_eq in E. subst c. exfalso. apply Hn. left; reflexivity.
  - rewrite IH by (intro Hi; apply Hn; right; exact Hi). simpl.
    rewrite <- app_assoc. reflexivity.
Qed.

Lemma after_last_slash_app l1 : forall l2 acc,
  after_last_slash (l1 ++ slash :: l2) acc = after_last_slash l2 [].
Proof.
  induction l1 as [|c l1 IH]; intros l2 acc; simpl.
  - reflexivity.
  - destruct (Ascii.eqb c slash); apply IH.
Qed.

Lemma after_last_slash_no_slash l : forall acc,
  ~ In slash acc -> ~ In slash (after_last_slash l acc).
Proof.
  induction l as [|c l IH]; intros acc Hacc; simpl.
  - intro Hi. apply Hacc. apply in_rev. exact Hi.
  - destruct (Ascii.eqb c slash) eqn:E; apply IH; [intros []|].
    intros [Hc|Hi]; [|exact (Hacc Hi)].
    subst c. rewrite Ascii.eqb_refl in E. discriminate.
Qed.

Lemma rev_cons_inv {A} (l : list A) x r : rev l = x :: r -> l = rev r ++ [x].
Proof. intro H. rewrite <- (rev_involutive l), H. reflexivity. Qed.

(** [os.path.join(a, b)] for a [b] without a slash: [b] itself, or [b]
    after a prefix that ends with a slash. *)
Lemma join_shape a b :
  ~ In slash (list_ascii_of_string b) ->
  join a b = b \/
  exists x, list_ascii_of_string (join a b) = x ++ slash :: list_ascii_of_string b.
Proof.
  intro Hb. unfold join.
  assert (Hsplit :
    (match rev (list_ascii_of_string a) with
     | [] => b
     | c' :: _ => if Ascii.eqb c' slash then (a ++ b)%string else (a ++ "/" ++ b)%string
     end) = b \/
    exists x, list_ascii_of_string
      (match rev (list_ascii_of_string a) with
       | [] => b
       | c' :: _ => if Ascii.eqb c' slash then (a ++ b)%string else (a ++ "/" ++ b)%string
       end) = x ++ slash :: list_ascii_of_string b).
  { destruct (rev (list_ascii_of_string a)) as [|c' r] eqn:Er; [left; reflexivity|].
    right. destruct (Ascii.eqb c' slash) eqn:Ec.
    - apply Ascii.eqb_eq in Ec. subst c'. apply rev_cons_inv in Er.
      exists (rev r). rewrite list_ascii_of_string_app, Er, <- app_assoc. reflexivity.
    - exists (list_ascii_of_string a).
      rewrite list_ascii_of_string_app, list_ascii_of_string_app. reflexivity. }
  destruct (list_ascii_of_string b) as [|c l] eqn:Eb; [exact Hsplit|].
  destruct (Ascii.eqb c slash) eqn:Ec.
  - apply Ascii.eqb_eq in Ec. subst c. exfalso. apply Hb. left; reflexivity.
  - exact Hsplit.
Qed.

Lemma append_empty_r (a : string) : (a ++ "")%string = a.
Proof. induction a as [|c a IH]; simpl; [reflexivity|]. rewrite IH. reflexivity. Qed.

Lemma append_assoc_str (a b c : string) : (a ++ b ++ c)%string = ((a ++ b) ++ c)%string.
Proof. induction a as [|x a IH]; simpl; [reflexivity|]. rewrite IH. reflexivity. Qed.

Lemma join_suffix a b : exists x, join a b = (x ++ b)%string.
Proof.
  unfold join.
  assert (H : exists x, (match rev (list_ascii_of_string a) with
                   | [] => b
                   | c' :: _ => if Ascii.eqb c' slash then (a ++ b)%string
                                else (a ++ "/" ++ b)%string
                   end) = (x ++ b)%string).
  { destruct (rev (list_ascii_of_string a)) as [|c' r]; [exists ""%string; reflexivity|].
    destruct (Ascii.eqb c' slash); [exists a; reflexivity|].
    exists (a ++ "/")%string. apply append_assoc_str. }
  destruct (list_ascii_of_string b) as [|c l]; [exact H|].
  destruct (Ascii.eqb c slash); [exists ""%string; reflexivity|exact H].
Qed.

Lemma rfind_from_spec c l : forall i best d,
  rfind_from c l i best = Some d ->
  (exists k, d = i + k /\ nth_error l k = Some c /\
             forall j, k < j -> nth_error l j <> Some c) \/
  (best = Some d /\ forall j, nth_error l j <> Some c).
Proof.
  induction l as [|x l IH]; intros i best d H; simpl in H.
  - right. split; [exact H|]. intros [|j]; discriminate.
  - destruct (IH _ _ _ H) as [[k (Hd & Hk & Hj)] | [Hb Hn]].
    + left. exists (S k). split; [lia|]. split; [exact Hk|].
      intros [|j] Hlt; [lia|]. apply Hj. lia.
    + destruct (Ascii.eqb x c) eqn:Ex.
      * apply Ascii.eqb_eq in Ex. subst x. inversion Hb; subst d.
        left. exists 0. split; [lia|]. split; [reflexivity|].
        intros [|j] Hlt; [lia|]. apply Hn.
      * right. split; [exact Hb|]. intros [|j]; simpl; [|apply Hn].
        intro Hx. inversion Hx; subst x. rewrite Ascii.eqb_refl in Ex. discriminate.
Qed.

Lemma rfind_spec c l d :
  rfind c l = Some d ->
  nth_error l d = Some c /\ forall j, d < j -> nth_error l j <> Some c.
Proof.
  unfold rfind. intro H. destruct (rfind_from_spec _ _ _ _ _ H) as [[k (-> & Hk & Hj)] | [Hb _]];
    [split; assumption | discriminate].
Qed.

Lemma skipn_nth_error {A} (l : list A) : forall d x,
  nth_error l d = Some x -> skipn d l = x :: skipn (S d) l.
Proof.
  induction l as [|y l IH]; intros [|d] x H; try discriminate; simpl in *.
  - inversion H; reflexivity.
  - apply IH in H. rewrite H. reflexivity.
Qed.

Lemma in_skipn_in {A} (x : A) : forall n l, In x (skipn n l) -> In x l.
Proof.
  induction n as [|n IH]; intros [|y l] H; simpl in *; auto.
Qed.



Lemma in_firstn_in {A} (x : A) : forall n l, In x (firstn n l) -> In x l.
Proof.
  induction n as [|n IH]; intros [|y l] H; simpl in *; try contradiction.
  destruct H as [H|H]; [left; exact H | right; exact (IH l H)].
Qed.

Lemma splitext_root_no_slash p :
  ~ In slash (list_ascii_of_string p) ->
  ~ In slash (list_ascii_of_string (fst (splitext p))).
Proof.
  intro Hp. unfold splitext.
  destruct (rfind dot (list_ascii_of_string p)); [|exact Hp].
  destruct (_ <? _)%Z; [|exact Hp].
  match goal with |- context [existsb ?f ?l] => destruct (existsb f l) end; [|exact Hp].
  simpl. rewrite list_ascii_of_string_of_list_ascii. intro Hi.
  exact (Hp (in_firstn_in _ _ _ Hi)).
Qed.

Lemma basename_no_slash p : ~ In slash (list_ascii_of_string (basename p)).
Proof.
  unfold basename. rewrite list_ascii_of_string_of_list_ascii.
  apply after_last_slash_no_slash. intros [].
Qed.

End PathFacts.

Module PathClaims.

Import Paths PathFacts.

(** For an [os.walk] entry [(root, file)] ([file] has no slash),
    [os.path.basename(os.path.join(root, file))] is [file]; so the
    destination of a discovered file depends only on its file name, not on
    the directory it was found in. *)
Theorem basename_join root file :
  ~ In slash (list_ascii_of_string file) ->
  basename (join root file) = file /\
  forall output_dir,
    output_path_for output_dir (join root file) =
    join output_dir (fst (splitext file) ++ ".png").
Proof.
  intro Hf.
  assert (Hb : basename (join root file) = file).
  { unfold basename. destruct (join_shape root file Hf) as [-> | [x ->]].
    - rewrite after_last_slash_noslash by exact Hf. apply string_of_list_ascii_of_string.
    - rewrite after_last_slash_app, after_last_slash_noslash by exact Hf.
      apply string_of_list_ascii_of_string. }
  split; [exact Hb|]. intro od. unfold output_path_for. rewrite Hb. reflexivity.
Qed.

(** [os.path.splitext] splits a name into a root and an extension that
    concatenate back to the name; the extension is empty or a dot followed
    by characters other than a dot, and when it is not empty the root holds
    a character other than a dot (leading dots never start an extension). *)
Theorem splitext_parts p :
  (fst (splitext p) ++ snd (splitext p))%string = p /\
  (snd (splitext p) = EmptyString \/
   ((exists e, snd (splitext p) = String dot e /\ ~ In dot (list_ascii_of_string e)) /\
    exists c, In c (list_ascii_of_string (fst (splitext p))) /\ c <> dot)).
Proof.
  unfold splitext.
  destruct (rfind dot (list_ascii_of_string p)) as [d|] eqn:Ed;
    [| simpl; split; [apply append_empty_r|left; reflexivity]].
  destruct (_ <? Z.of_nat d)%Z;
    [| simpl; split; [apply append_empty_r|left; reflexivity]].
  match goal with |- context [existsb ?f ?l] => destruct (existsb f l) eqn:Ee end;
    [| simpl; split; [apply append_empty_r|left; reflexivity]].
  simpl. apply rfind_spec in Ed as [Hd Hj].
  split.
  - rewrite <- string_of_list_ascii_app, firstn_skipn. apply string_of_list_ascii_of_string.
  - right. split.
    + rewrite (skipn_nth_error _ _ _ Hd). simpl.
      exists (string_of_list_ascii (skipn (S d) (list_ascii_of_string p))).
      split; [reflexivity|].
      rewrite list_ascii_of_string_of_list_ascii. intro Hin.
      apply In_nth_error in Hin as [j Hj'].
      rewrite nth_error_skipn in Hj'. exact (Hj (S d + j) ltac:(lia) Hj').
    + apply existsb_exists in Ee as [c [Hc Hnd]].
      exists c. rewrite list_ascii_of_string_of_list_ascii. split.
      * exact (in_skipn_in _ _ _ Hc).
      * intro Hcd. subst c. rewrite Ascii.eqb_refl in Hnd. discriminate.
Qed.

(** Every destination [main] computes ends in ".png"; when the output
    directory is not empty and does not end with a slash it is
    [output_dir + "/" + root + ".png"], the root being the input's base name
    without its last extension. *)
Theorem output_path_shape od stl :
  (exists x, output_path_for od stl = (x ++ ".png")%string) /\
  (forall c r, rev (list_ascii_of_string od) = c :: r -> c <> slash ->
     output_path_for od stl = (od ++ "/" ++ fst (splitext (basename stl)) ++ ".png")%string).
Proof.
  split.
  - unfold output_path_for.
    destruct (join_suffix od (fst (splitext (basename stl)) ++ ".png")) as [x ->].
    exists (x ++ fst (splitext (basename stl)))%string. apply append_assoc_str.
  - intros c r Hr Hc. unfold output_path_for, join.
    pose proof (splitext_root_no_slash _ (basename_no_slash stl)) as Hn.
    rewrite list_ascii_of_string_app.
    destruct (list_ascii_of_string (fst (splitext (basename stl)))) as [|c0 l0] eqn:Es;
      simpl; rewrite Hr.
    + destruct (Ascii.eqb c slash) eqn:E; [apply Ascii.eqb_eq in E; contradiction|].
      reflexivity.
    + destruct (Ascii.eqb c0 slash) eqn:E0.
      * apply Ascii.eqb_eq in E0. subst c0. exfalso. apply Hn. left; reflexivity.
      * destruct (Ascii.eqb c slash) eqn:E; [apply Ascii.eqb_eq in E; contradiction|].
        reflexivity.
Qed.


End PathClaims.

(** * Further properties of WireframeRender *)

Module WireframeMore.

Import Wireframe WireframeClaims.

Lemma map_option_none {A B} (f : A -> option B) l :
  map_option f l = None <-> exists x, In x l /\ f x = None.
Proof.
  induction l as [|x l IH]; simpl.
  - split; [discriminate|]. intros (? & [] & _).
  - destruct (f x) as [y|] eqn:Ef.
    + destruct (map_option f l) as [ys|] eqn:El.
      * split; [discriminate|]. intros (z & [<-|Hz] & Hn); [congruence|].
        assert (Hc : Some ys = None) by (apply IH; exists z; auto). discriminate.
      * split; [intros _|reflexivity]. destruct (proj1 IH eq_refl) as (z & Hz & Hn).
        exists z. auto.
    + split; [intros _; exists x; auto|reflexivity].
Qed.

Lemma triangle_none v2 f : triangle v2 f = None <-> face_in_range (List.length v2) f = false.
Proof.
  destruct f as [[a b] c]. unfold triangle, face_in_range.
  destruct (Nat.ltb_spec a (List.length v2)) as [Ha|Ha];
    [destruct (nth_error v2 a) eqn:Ea; [|apply nth_error_None in Ea; lia]
    |rewrite (proj2 (nth_error_None v2 a) Ha); simpl; split; reflexivity];
  (destruct (Nat.ltb_spec b (List.length v2)) as [Hb|Hb];
    [destruct (nth_error v2 b) eqn:Eb; [|apply nth_error_None in Eb; lia]
    |rewrite (proj2 (nth_error_None v2 b) Hb); simpl; split; reflexivity]);
  (destruct (Nat.ltb_spec c (List.length v2)) as [Hc|Hc];
    [destruct (nth_error v2 c) eqn:Ec; [|apply nth_error_None in Ec; lia]
    |rewrite (proj2 (nth_error_None v2 c) Hc); simpl; split; reflexivity]);
  simpl; split; discriminate.
Qed.

Lemma in_slice_step_from step : forall l c x, In x (slice_step_from step c l) -> In x l.
Proof.
  induction l as [|y l IH]; intros c x H; simpl in H; [destruct H|].
  destruct c as [|c]; [destruct H as [H|H]; [left; exact H|]|]; right; eapply IH; exact H.
Qed.


(** WireframeRender's drawing fails ([IndexError] from [vertices_2d[face]])
    exactly when some face refers to a vertex index beyond the vertex list;
    otherwise it draws. *)
Theorem wireframe_index_error vertices faces :
  wireframe_cmds vertices faces = None <->
  exists f, In f faces /\ face_in_range (List.length vertices) f = false.
Proof.
  assert (Hlen : List.length (project_all vertices) = List.length vertices)
    by (unfold project_all; apply length_map).
  unfold wireframe_cmds.
  destruct (map_option (fun f => option_map (fun t => Plot (close_loop t))
              (triangle (project_all vertices) f)) faces) as [o|] eqn:Eo.
  - destruct (map_option (fun f => option_map Polygon (triangle (project_all vertices) f))
                (slice_step 5 faces)) as [q|] eqn:Eq.
    + split; [discriminate|]. intros (f & Hf & Hr).
      assert (Hn : map_option (fun f => option_map (fun t => Plot (close_loop t))
                     (triangle (project_all vertices) f)) faces = None).
      { apply map_option_none. exists f. split; [exact Hf|].
        rewrite <- Hlen in Hr. apply triangle_none in Hr. rewrite Hr. reflexivity. }
      congruence.
    + split; [intros _|reflexivity].
      apply map_option_none in Eq as (f & Hf & Hn).
      exists f. split; [exact (in_slice_step_from _ _ _ _ Hf)|].
      rewrite <- Hlen. apply triangle_none.
      destruct (triangle (project_all vertices) f); [discriminate|reflexivity].
  - split; [intros _|reflexivity].
    apply map_option_none in Eo as (f & Hf & Hn).
    exists f. split; [exact Hf|]. rewrite <- Hlen. apply triangle_none.
    destruct (triangle (project_all vertices) f); [discriminate|reflexivity].
Qed.


End WireframeMore.

(** * SurfaceRender axis limits *)

Module SurfaceClaims.

Import Wireframe Surface.
Local Open Scope Q_scope.








End SurfaceClaims.

(** * Concrete runs of the further properties *)

Module ExtraWitnesses.

Import Pipeline Samples BatchFacts BatchClaims Paths PathClaims
  Wireframe WireframeMore Surface SurfaceClaims.

Lemma process_files_total_witness :
  let st' := snd (Batch.process_files env_fallback "previews" two_parts (init_state [])) in
  Batch.process_files env_fallback "previews" two_parts (init_state []) = (inr tt, st') /\
  total st' = total (init_state []) + 2.
Proof.
  intro st'.
  assert (H : Batch.process_files env_fallback "previews" two_parts (init_state []) =
              (inr tt, st')) by (vm_compute; reflexivity).
  split; [exact H|].
  exact (process_files_total env_fallback "previews" two_parts (init_state []) st' H).
Defined.


Lemma process_files_rerun_skips_witness :
  (forall f, In f two_parts ->
     path_exists (output_path_for "previews" f) (init_state ["previews/part.png"%string]) = true) /\
  exists st', Batch.process_files env_fail "previews" two_parts
                (init_state ["previews/part.png"%string]) = (inr tt, st') /\
    skipped_count st' = 2 /\ failure_count st' = 0.
Proof.
  assert (H : forall f, In f two_parts ->
     path_exists (output_path_for "previews" f) (init_state ["previews/part.png"%string]) = true).
  { intros f [ <- | [ <- | [] ] ]; vm_compute; reflexivity. }
  split; [exact H|].
  destruct (process_files_rerun_skips env_fail "previews" two_parts _ H)
    as (st' & Hr & Hs & _ & Hf & _).
  exists st'. split; [exact Hr|]. rewrite Hs, Hf. split; reflexivity.
Defined.

Lemma basename_join_witness :
  ~ In slash (list_ascii_of_string "part.stl") /\
  basename (join "models/v2" "part.stl") = "part.stl"%string /\
  output_path_for "previews" (join "models/v2" "part.stl") =
    join "previews" (fst (splitext "part.stl") ++ ".png").
Proof.
  assert (H : ~ In slash (list_ascii_of_string "part.stl")).
  { simpl. unfold slash. intuition discriminate. }
  split; [exact H|].
  destruct (basename_join "models/v2" "part.stl" H) as [Hb Ho].
  split; [exact Hb | apply Ho].
Defined.

Lemma output_path_shape_witness :
  rev (list_ascii_of_string "previews") = "s"%char :: rev (list_ascii_of_string "preview") /\
  "s"%char <> slash /\
  output_path_for "previews" "models/v2/part.stl" =
    ("previews" ++ "/" ++ fst (splitext (basename "models/v2/part.stl")) ++ ".png")%string.
Proof.
  assert (Hr : rev (list_ascii_of_string "previews") =
               "s"%char :: rev (list_ascii_of_string "preview")) by reflexivity.
  assert (Hc : "s"%char <> slash) by (unfold slash; discriminate).
  split; [exact Hr|]. split; [exact Hc|].
  exact (proj2 (output_path_shape "previews" "models/v2/part.stl") _ _ Hr Hc).
Defined.



End ExtraWitnesses.
